(** * Verification of [docker/kratos/substitute.py]

    The script reads a template file, replaces the four placeholders
    [${KRATOS_DSN}], [${KRATOS_CIPHER_SECRET}], [${KRATOS_COOKIE_SECRET}] and
    [${KRATOS_SMTP_CONNECTION_URI}] by the values of the environment
    variables of the same names (the empty string when unset), writes the
    result to the output file and prints one confirmation line.

    Python strings are modelled as lists of characters, [os.environ] and the
    file system as finite maps, the dictionary [vars_to_sub] as an
    association list in insertion order, and uncaught exceptions as an error
    value that ends the run with exit status 1. *)

From Stdlib Require Import List Ascii String Bool Arith Lia Permutation.
From stdpp Require Import gmap strings.
Import ListNotations.

Local Open Scope list_scope.

(** ** Text *)

Definition text := list ascii.

(** A Python string literal. *)
Definition chars (s : string) : text := list_ascii_of_string s.

(** [is_prefix p s] is [s.startswith(p)]. *)
Fixpoint is_prefix (p s : text) : bool :=
  match p with
  | [] => true
  | a :: p' =>
      match s with
      | [] => false
      | c :: s' => Ascii.eqb a c && is_prefix p' s'
      end
  end.

(** [contains p s] is [p in s]: [p] starts at some position of [s]. *)
Fixpoint contains (p s : text) : bool :=
  is_prefix p s ||
  match s with
  | [] => false
  | _ :: s' => contains p s'
  end.

(** [sep.join(parts)]. *)
Fixpoint join (sep : text) (parts : list text) : text :=
  match parts with
  | [] => []
  | [p] => p
  | p :: rest => p ++ sep ++ join sep rest
  end.

(** ** [str.replace]

    [s.replace(old, new)] scans [s] from the left; wherever [old] starts it
    emits [new] and resumes after that occurrence, otherwise it copies one
    character.  [replace_from] carries the number of characters of the
    current occurrence that are still to be skipped.  With an empty [old],
    Python puts [new] before every character and at the end. *)

Fixpoint replace_from (old new : text) (skip : nat) (s : text) : text :=
  match s with
  | [] => []
  | c :: s' =>
      match skip with
      | S k => replace_from old new k s'
      | O =>
          if is_prefix old s
          then new ++ replace_from old new (length old - 1) s'
          else c :: replace_from old new 0 s'
      end
  end.

Definition replace (old new s : text) : text :=
  match old with
  | [] => new ++ flat_map (fun c => c :: new) s
  | _ :: _ => replace_from old new 0 s
  end.

(** ** The substitution ([substitute.py], lines 8-20) *)

(** [os.environ.get(name, default)]. *)
Definition environ_get (env : gmap string text) (name : string)
    (default : text) : text :=
  match env !! name with
  | Some value => value
  | None => default
  end.

(** The dictionary [vars_to_sub]; Python dictionaries iterate in insertion
    order, so it is kept as an association list. *)
Definition vars_to_sub (env : gmap string text) : list (string * text) :=
  [ ("KRATOS_DSN"%string, environ_get env "KRATOS_DSN" []);
    ("KRATOS_CIPHER_SECRET"%string, environ_get env "KRATOS_CIPHER_SECRET" []);
    ("KRATOS_COOKIE_SECRET"%string, environ_get env "KRATOS_COOKIE_SECRET" []);
    ("KRATOS_SMTP_CONNECTION_URI"%string,
      environ_get env "KRATOS_SMTP_CONNECTION_URI" []) ].

(** The keys of [vars_to_sub], in declaration order. *)
Definition var_names : list string :=
  [ "KRATOS_DSN"; "KRATOS_CIPHER_SECRET"; "KRATOS_COOKIE_SECRET";
    "KRATOS_SMTP_CONNECTION_URI" ]%string.

(** [placeholder = '${' + var_name + '}'] *)
Definition placeholder (var_name : string) : text :=
  chars "${" ++ chars var_name ++ chars "}".

(** One iteration of the loop of lines 18-20. *)
Definition substitute_var (content : text) (item : string * text) : text :=
  replace (placeholder (fst item)) (snd item) content.

(** The loop [for var_name, var_value in table.items()]. *)
Definition substitute_vars (table : list (string * text)) (content : text)
    : text :=
  fold_left substitute_var table content.

(** What the script makes of the template text in environment [env]. *)
Definition substitute (env : gmap string text) (content : text) : text :=
  substitute_vars (vars_to_sub env) content.

(** The entry of the table for one name, and the table restricted to (or
    reordered along) a list of names. *)
Definition resolve (env : gmap string text) (name : string) : text :=
  environ_get env name [].

Definition entries (env : gmap string text) (names : list string)
    : list (string * text) :=
  map (fun name => (name, resolve env name)) names.

(** ** The script as a whole

    The world holds the readable text files, the paths that cannot be
    opened for writing, and what has been printed.  A statement either
    raises or returns a value, and leaves a world behind. *)

Inductive exn : Type :=
  | IndexError
  | OSError.

Record world : Type := World {
  files : gmap string text;
  unwritable : gset string;
  stdout : list string
}.

Definition io (A : Type) : Type := world -> (exn + A) * world.

Definition ret {A : Type} (a : A) : io A := fun w => (inr a, w).

Definition raise {A : Type} (e : exn) : io A := fun w => (inl e, w).

Definition bind {A B : Type} (m : io A) (k : A -> io B) : io B :=
  fun w =>
    match m w with
    | (inl e, w') => (inl e, w')
    | (inr a, w') => k a w'
    end.

Notation "'let*' x ':=' m 'in' k" := (bind m (fun x => k))
  (at level 10, x name, m at level 100, k at level 200).

(** [sys.argv[i]] *)
Definition argv_get (argv : list string) (i : nat) : io string :=
  match nth_error argv i with
  | Some a => ret a
  | None => raise IndexError
  end.

(** [with open(path, 'r') as f: f.read()] *)
Definition read_text (path : string) : io text :=
  fun w =>
    match files w !! path with
    | Some content => (inr content, w)
    | None => (inl OSError, w)
    end.

(** [with open(path, 'w') as f: f.write(content)] *)
Definition write_text (path : string) (content : text) : io unit :=
  fun w =>
    if decide (elem_of path (unwritable w))
    then (inl OSError, w)
    else (inr tt, World (<[path := content]> (files w)) (unwritable w)
                        (stdout w)).

(** [print(line)] *)
Definition print (line : string) : io unit :=
  fun w => (inr tt, World (files w) (unwritable w) (stdout w ++ [line])).

Definition confirmation (template_file output_file : string) : string :=
  String.append "Substituted variables in "
    (String.append template_file (String.append " -> " output_file)).

Definition main (argv : list string) (env : gmap string text) : io unit :=
  let* template_file := argv_get argv 1 in
  let* output_file := argv_get argv 2 in
  let table := vars_to_sub env in
  let* content := read_text template_file in
  let content := substitute_vars table content in
  let* written := write_text output_file content in
  print (confirmation template_file output_file).

(** The exit status of the interpreter: 1 after an uncaught exception. *)
Definition exit_status {A : Type} (r : (exn + A) * world) : nat :=
  match fst r with
  | inl _ => 1
  | inr _ => 0
  end.

(** The positional arguments: [sys.argv] without the script name. *)
Definition positional (argv : list string) : list string := tl argv.

(** ** Vocabulary of the statements *)

(** [has c s]: the character [c] occurs in [s]. *)
Definition has (c : ascii) (s : text) : bool := existsb (Ascii.eqb c) s.

(** [plain_for tok s]: at no position of [s] does [tok] start, neither in
    full (so [tok] does not occur in [s]) nor cut off by the end of [s] (so
    [s] does not end with a non-empty proper prefix of [tok]). *)
Fixpoint plain_for (tok s : text) : bool :=
  match s with
  | [] => true
  | _ :: s' =>
      negb (is_prefix tok s) && negb (is_prefix s tok) && plain_for tok s'
  end.

(** A name that holds neither a dollar sign nor a closing brace, so that
    [placeholder name] runs from its dollar sign to its first closing
    brace. *)
Definition token_name (name : string) : bool :=
  negb (has "$" (chars name)) && negb (has "}" (chars name)).

(** Plain text: plain for each of the four placeholders. *)
Definition plain (s : text) : bool :=
  forallb (fun name => plain_for (placeholder name) s) var_names.

(** The template contains none of the four placeholders. *)
Definition mentions_none (t : text) : bool :=
  forallb (fun name => negb (contains (placeholder name) t)) var_names.

(** [recognized name]: [name] is a key of [vars_to_sub]. *)
Definition recognized (name : string) : bool :=
  existsb (String.eqb name) var_names.

(** A template given by its pieces: stretches of literal text and
    placeholders. *)
Inductive piece : Type :=
  | Lit (s : text)
  | Tok (name : string).

Definition render_piece (p : piece) : text :=
  match p with
  | Lit s => s
  | Tok name => placeholder name
  end.

Definition render (pieces : list piece) : text :=
  concat (map render_piece pieces).

(** The substitution as the specification words it: every placeholder gives
    way to the value of its variable, inserted as it is, in one pass. *)
Definition expand_piece (env : gmap string text) (p : piece) : text :=
  match p with
  | Lit s => s
  | Tok name => resolve env name
  end.

Definition expand_literally (env : gmap string text) (pieces : list piece)
    : text :=
  concat (map (expand_piece env) pieces).

(** The names that come after [name] in [names]. *)
Fixpoint after_in (names : list string) (name : string) : list string :=
  match names with
  | [] => []
  | n :: rest => if String.eqb n name then rest else after_in rest name
  end.

(** The value of [name] is plain for the placeholders of the variables
    that the loop over [names] handles after [name]. *)
Definition settled (env : gmap string text) (names : list string)
    (name : string) : bool :=
  forallb (fun later => plain_for (placeholder later) (resolve env name))
    (after_in names name).

(** The value of [name] is plain for the placeholders of the other three
    variables. *)
Definition inert (env : gmap string text) (name : string) : bool :=
  forallb (fun other =>
             String.eqb other name ||
             plain_for (placeholder other) (resolve env name))
    var_names.

(** Pieces whose literal text is plain and whose placeholders are recognized
    and have a settled (respectively inert) value. *)
Definition settled_piece (env : gmap string text) (p : piece) : bool :=
  match p with
  | Lit s => plain s
  | Tok name => recognized name && settled env var_names name
  end.

Definition inert_piece (env : gmap string text) (p : piece) : bool :=
  match p with
  | Lit s => plain s
  | Tok name => recognized name && inert env name
  end.

(** A value that cannot begin a placeholder: no dollar sign followed by an
    opening brace, and no dollar sign at its end. *)
Fixpoint opens_no_placeholder (s : text) : bool :=
  match s with
  | [] => true
  | c :: s' =>
      negb (Ascii.eqb c "$" &&
            match s' with
            | [] => true
            | d :: _ => Ascii.eqb d "{"
            end)
      && opens_no_placeholder s'
  end.

(** Two environments that give the four variables the same value, or leave
    the same ones unset. *)
Definition agree_on_vars (env1 env2 : gmap string text) : Prop :=
  Forall (fun name => env1 !! name = env2 !! name) var_names.

(** A table whose keys are token names other than [name]. *)
Definition keys_apart (table : list (string * text)) (name : string) : Prop :=
  Forall (fun item => token_name (fst item) = true /\ fst item <> name)
    table.

(** The pieces after the replacement of one placeholder, and after the
    loop over [names]: handled placeholders have become literal text. *)
Definition fill_one (k : string) (v : text) (p : piece) : piece :=
  match p with
  | Lit s => Lit s
  | Tok n => if String.eqb n k then Lit v else Tok n
  end.

Definition fill_names (env : gmap string text) (names : list string)
    (p : piece) : piece :=
  match p with
  | Lit s => Lit s
  | Tok n => if existsb (String.eqb n) names then Lit (resolve env n)
             else Tok n
  end.

(** A piece on which the replacement of [placeholder k] acts as on a
    whole. *)
Definition piece_ready (k : string) (p : piece) : Prop :=
  match p with
  | Lit s => plain_for (placeholder k) s = true
  | Tok n => token_name n = true
  end.

(** A piece on which the loop over [names] acts as on a whole. *)
Definition piece_settled (env : gmap string text) (names : list string)
    (p : piece) : Prop :=
  match p with
  | Lit s => forall k, In k names -> plain_for (placeholder k) s = true
  | Tok n =>
      token_name n = true /\
      forall j, In j (after_in names n) ->
                plain_for (placeholder j) (resolve env n) = true
  end.

(** The pieces of [placeholder name].join(parts). *)
Fixpoint joined (name : string) (parts : list text) : list piece :=
  match parts with
  | [] => []
  | [p] => [Lit p]
  | p :: rest => Lit p :: Tok name :: joined name rest
  end.

(** A character that occurs in none of the four placeholders (a newline, a
    space, a colon, ...). *)
Definition separator (c : ascii) : bool :=
  forallb (fun name => negb (has c (placeholder name))) var_names.

(** Pieces whose literal text is plain and whose placeholders are recognized
    and have a plain value. *)
Definition clean_piece (env : gmap string text) (p : piece) : bool :=
  match p with
  | Lit s => plain s
  | Tok name => recognized name && plain (resolve env name)
  end.

(** None of the four variables has a non-empty value. *)
Definition all_empty (env : gmap string text) : bool :=
  forallb (fun name => match resolve env name with
                       | [] => true
                       | _ :: _ => false
                       end) var_names.

(** The run of the script, statement by statement, as one case analysis. *)
Definition outcome (argv : list string) (env : gmap string text) (w : world)
    : (exn + unit) * world :=
  match nth_error argv 1, nth_error argv 2 with
  | Some template_file, Some output_file =>
      match files w !! template_file with
      | None => (inl OSError, w)
      | Some content =>
          if decide (elem_of output_file (unwritable w))
          then (inl OSError, w)
          else (inr tt,
                World (insert output_file (substitute env content) (files w))
                  (unwritable w)
                  (stdout w ++ [confirmation template_file output_file]))
      end
  | _, _ => (inl IndexError, w)
  end.

(** ** Sample runs *)

(** The environment of the end-to-end example: only [KRATOS_DSN] is set. *)
Definition env_example : gmap string text :=
  insert "KRATOS_DSN"%string (chars "postgres://x") empty.

(** A value that holds the placeholder of a variable declared later. *)
Definition env_nested : gmap string text :=
  insert "KRATOS_DSN"%string (chars "${KRATOS_CIPHER_SECRET}")
    (insert "KRATOS_CIPHER_SECRET"%string (chars "s3cret") empty).

(** A value that holds the placeholder of a variable declared earlier. *)
Definition env_backward : gmap string text :=
  insert "KRATOS_SMTP_CONNECTION_URI"%string (chars "${KRATOS_DSN}")
    (insert "KRATOS_DSN"%string (chars "postgres://x") empty).

Definition env_crossed : gmap string text :=
  insert "KRATOS_DSN"%string (chars "${KRATOS_SMTP_CONNECTION_URI}")
    (insert "KRATOS_SMTP_CONNECTION_URI"%string (chars "smtp://mail") empty).

Definition env_twice : gmap string text :=
  insert "KRATOS_DSN"%string (chars "${KRATOS_COOKIE_SECRET}")
    (insert "KRATOS_COOKIE_SECRET"%string (chars "c00kie") empty).

(** Values with characters that a regular expression would treat
    specially. *)
Definition env_special : gmap string text :=
  insert "KRATOS_COOKIE_SECRET"%string (chars "pa$$.*\w+(x)$1")
    (insert "KRATOS_DSN"%string (chars "postgres://u:p@h/db?a=.*") empty).

Definition env_special_nested : gmap string text :=
  insert "KRATOS_COOKIE_SECRET"%string
    (chars "$1.00*${KRATOS_SMTP_CONNECTION_URI}")
    (insert "KRATOS_SMTP_CONNECTION_URI"%string (chars "smtp://mail") empty).

(** [env_example] with variables the script does not look at. *)
Definition env_crowded : gmap string text :=
  insert "HOME"%string (chars "/root")
    (insert "KRATOS_ADMIN_URL"%string (chars "http://kratos:4434")
       env_example).

(** A file system with one template. *)
Definition world_example : world :=
  World (insert "kratos.tmpl.yml"%string (chars "dsn: ${KRATOS_DSN}") empty)
    empty [].

(** * Properties *)

(** ** Prefixes and occurrences *)

Lemma is_prefix_app (p s : text) : is_prefix p (p ++ s) = true.
Proof.
  induction p as [|a p IH]; simpl; [reflexivity|].
  now rewrite Ascii.eqb_refl, IH.
Qed.

Lemma is_prefix_split (p s : text) :
  is_prefix p s = true -> exists r, s = p ++ r.
Proof.
  revert s. induction p as [|a p IH]; intros s H.
  - now exists s.
  - destruct s as [|c s]; simpl in H; [discriminate|].
    apply andb_true_iff in H as [Hac Hp].
    apply Ascii.eqb_eq in Hac. subst c.
    destruct (IH _ Hp) as [r ->]. now exists r.
Qed.

Lemma is_prefix_spec (p s : text) :
  is_prefix p s = true <-> exists r, s = p ++ r.
Proof.
  split; [apply is_prefix_split|].
  intros [r ->]. apply is_prefix_app.
Qed.

(** What starts in [s] still starts there when text is appended. *)
Lemma is_prefix_extend (p s r : text) :
  is_prefix p s = true -> is_prefix p (s ++ r) = true.
Proof.
  intros H. destruct (is_prefix_split _ _ H) as [q ->].
  rewrite <- app_assoc. apply is_prefix_app.
Qed.

(** If [p] neither starts [s] nor is cut off by its end, appending text to
    [s] does not complete it. *)
Lemma is_prefix_app_false (p s r : text) :
  is_prefix p s = false -> is_prefix s p = false ->
  is_prefix p (s ++ r) = false.
Proof.
  revert s. induction p as [|a p IH]; intros s Hps Hsp.
  - discriminate.
  - destruct s as [|c s]; [discriminate|]. simpl in *.
    destruct (Ascii.eqb a c) eqn:Hac; [|reflexivity].
    apply Ascii.eqb_eq in Hac. subst c.
    rewrite Ascii.eqb_refl in Hsp. simpl in *. now apply IH.
Qed.

Lemma has_false (c : ascii) (s : text) : has c s = false <-> ~ In c s.
Proof.
  unfold has. induction s as [|a s IH]; simpl.
  - tauto.
  - rewrite orb_false_iff, IH. split.
    + intros [Hca Hs] [->|Hin]; [|tauto].
      now rewrite Ascii.eqb_refl in Hca.
    + intros H. split; [|tauto].
      destruct (Ascii.eqb c a) eqn:Hca; [|reflexivity].
      apply Ascii.eqb_eq in Hca. subst a. tauto.
Qed.

(** A pattern that does not contain [d] cannot reach across a [d]. *)
Lemma is_prefix_before (p s rest : text) (d : ascii) :
  has d p = false ->
  is_prefix p (s ++ d :: rest) = true -> is_prefix p s = true.
Proof.
  revert s. induction p as [|a p IH]; intros s Hd H; [reflexivity|].
  unfold has in Hd. simpl in Hd. apply orb_false_iff in Hd as [Hda Hdp].
  destruct s as [|c s]; simpl in *.
  - apply andb_true_iff in H as [Had _]. apply Ascii.eqb_eq in Had.
    subst a. now rewrite Ascii.eqb_refl in Hda.
  - apply andb_true_iff in H as [Hac H]. rewrite Hac. simpl.
    now apply IH.
Qed.

(** Two texts closed by the same character, which neither contains: if one
    starts the other they are equal. *)
Lemma is_prefix_closed (a b y : text) (e : ascii) :
  has e a = false -> has e b = false ->
  is_prefix (a ++ [e]) (b ++ e :: y) = true -> a = b.
Proof.
  revert b. induction a as [|x a IH]; intros b Ha Hb H.
  - destruct b as [|z b]; [reflexivity|]. simpl in H.
    apply andb_true_iff in H as [Hez _]. apply Ascii.eqb_eq in Hez.
    subst z. unfold has in Hb. simpl in Hb.
    now rewrite Ascii.eqb_refl in Hb.
  - unfold has in Ha. simpl in Ha. apply orb_false_iff in Ha as [Hex Ha].
    destruct b as [|z b]; simpl in H.
    + apply andb_true_iff in H as [Hxe _]. apply Ascii.eqb_eq in Hxe.
      subst x. now rewrite Ascii.eqb_refl in Hex.
    + apply andb_true_iff in H as [Hxz H]. apply Ascii.eqb_eq in Hxz.
      subst z. unfold has in Hb. simpl in Hb.
      apply orb_false_iff in Hb as [_ Hb]. f_equal. now apply IH.
Qed.

Lemma contains_prefix (p s : text) :
  is_prefix p s = true -> contains p s = true.
Proof. intros H. destruct s; simpl; now rewrite H. Qed.

Lemma contains_spec (p s : text) :
  contains p s = true <-> exists a b, s = a ++ p ++ b.
Proof.
  split.
  - induction s as [|c s IH]; simpl; intros H.
    + rewrite orb_false_r in H. apply is_prefix_split in H as [r ->].
      now exists [], r.
    + apply orb_true_iff in H as [H|H].
      * apply is_prefix_split in H as [r ->]. now exists [], r.
      * destruct (IH H) as (a & b & ->). now exists (c :: a), b.
  - intros (a & b & ->). induction a as [|c a IH]; simpl.
    + apply contains_prefix, is_prefix_app.
    + rewrite IH. apply orb_true_r.
Qed.

(** ** One [str.replace] *)

Lemma replace_from_skip (old new : text) (k : nat) (s : text) :
  replace_from old new k s = replace_from old new 0 (skipn k s).
Proof.
  revert k. induction s as [|c s IH]; intros k.
  - now destruct k.
  - destruct k as [|k]; [reflexivity|]. simpl. apply IH.
Qed.

Lemma replace_nil (old new : text) : old <> [] -> replace old new [] = [].
Proof. destruct old; [congruence|reflexivity]. Qed.

(** Where [old] starts, [new] is emitted and the scan resumes after the
    occurrence. *)
Lemma replace_cons_hit (old new : text) (c : ascii) (s : text) :
  old <> [] -> is_prefix old (c :: s) = true ->
  replace old new (c :: s) =
  new ++ replace old new (skipn (length old) (c :: s)).
Proof.
  intros Hold H. unfold replace. destruct old as [|a o]; [congruence|].
  cbn [replace_from]. rewrite H. f_equal.
  rewrite replace_from_skip. simpl. now rewrite Nat.sub_0_r.
Qed.

(** Where [old] does not start, one character is copied. *)
Lemma replace_cons_miss (old new : text) (c : ascii) (s : text) :
  is_prefix old (c :: s) = false ->
  replace old new (c :: s) = c :: replace old new s.
Proof.
  intros H. unfold replace. destruct old as [|a o]; [discriminate|].
  cbn [replace_from]. now rewrite H.
Qed.

Lemma replace_hit (old new s : text) :
  old <> [] -> replace old new (old ++ s) = new ++ replace old new s.
Proof.
  intros Hold. assert (Hp := is_prefix_app old s).
  destruct (old ++ s) as [|c r] eqn:E.
  - destruct old; [congruence|discriminate].
  - rewrite replace_cons_hit by assumption. rewrite <- E.
    now rewrite skipn_app, skipn_all, Nat.sub_diag.
Qed.

(** Text in which [old] does not occur is left as it is. *)
Lemma replace_absent (old new s : text) :
  contains old s = false -> replace old new s = s.
Proof.
  induction s as [|c s IH]; intros H.
  - simpl in H. rewrite orb_false_r in H.
    apply replace_nil. intros ->. discriminate.
  - simpl in H. apply orb_false_iff in H as [Hp Hs].
    rewrite replace_cons_miss by assumption. now rewrite IH.
Qed.

(** Text that is plain for [old] is copied, whatever follows it. *)
Lemma replace_plain (old new u rest : text) :
  plain_for old u = true ->
  replace old new (u ++ rest) = u ++ replace old new rest.
Proof.
  induction u as [|c u IH]; intros H; [reflexivity|].
  cbn [plain_for] in H. apply andb_true_iff in H as [H Hu].
  apply andb_true_iff in H as [H1 H2].
  apply negb_true_iff in H1, H2.
  change ((c :: u) ++ rest) with (c :: (u ++ rest)).
  rewrite replace_cons_miss.
  - simpl. now rewrite IH.
  - change (c :: (u ++ rest)) with ((c :: u) ++ rest).
    now apply is_prefix_app_false.
Qed.

Lemma plain_for_app (tok u v : text) :
  plain_for tok u = true -> plain_for tok v = true ->
  plain_for tok (u ++ v) = true.
Proof.
  induction u as [|c u IH]; intros Hu Hv; [assumption|].
  cbn [plain_for] in Hu. apply andb_true_iff in Hu as [H Hu].
  apply andb_true_iff in H as [H1 H2]. apply negb_true_iff in H1, H2.
  assert (is_prefix ((c :: u) ++ v) tok = false) as H3.
  { destruct (is_prefix ((c :: u) ++ v) tok) eqn:E; [|reflexivity].
    apply is_prefix_split in E as [r E]. rewrite <- app_assoc in E.
    assert (is_prefix (c :: u) tok = true) as H.
    { rewrite E. apply is_prefix_app. }
    congruence. }
  assert (H4 := is_prefix_app_false _ _ v H1 H2).
  change ((c :: u) ++ v) with (c :: (u ++ v)) in *. cbn [plain_for].
  now rewrite H3, H4, IH.
Qed.

(** A pattern does not occur in text that is plain for it. *)
Lemma plain_for_absent (tok s : text) :
  tok <> [] -> plain_for tok s = true -> contains tok s = false.
Proof.
  intros Htok. induction s as [|c s IH]; intros H.
  - simpl. destruct tok; [congruence|reflexivity].
  - cbn [plain_for] in H. apply andb_true_iff in H as [H Hs].
    apply andb_true_iff in H as [H1 _]. apply negb_true_iff in H1.
    simpl contains. rewrite IH by assumption.
    change (is_prefix tok (c :: s) || false = false).
    now rewrite H1.
Qed.

(** [plain_for] in words: no non-empty suffix of the text begins with the
    pattern, and none is a prefix of the pattern. *)
Lemma plain_for_spec (tok s : text) :
  plain_for tok s = true <->
  forall a b, s = a ++ b -> b <> [] ->
              is_prefix tok b = false /\ is_prefix b tok = false.
Proof.
  split.
  - induction s as [|c s IH]; intros H a b E Hb.
    + destruct a; destruct b; try discriminate. congruence.
    + cbn [plain_for] in H. apply andb_true_iff in H as [H Hs].
      apply andb_true_iff in H as [H1 H2]. apply negb_true_iff in H1, H2.
      destruct a as [|x a].
      * simpl in E. subst b. now split.
      * injection E as _ E. now apply (IH Hs a b).
  - induction s as [|c s IH]; intros H; [reflexivity|].
    cbn [plain_for]. destruct (H [] (c :: s) eq_refl) as [H1 H2];
      [discriminate|].
    rewrite H1, H2, IH; [reflexivity|].
    intros a b E Hb. apply (H (c :: a) b); [|assumption].
    simpl. now rewrite E.
Qed.

(** ** Patterns that begin with a character they do not repeat *)

Section Barrier.

Variables (d : ascii) (body new : text).
Hypothesis body_free : has d body = false.

Local Abbreviation old := (d :: body).

(** Text without [d] is plain for the pattern. *)
Lemma plain_for_without (s : text) :
  has d s = false -> plain_for old s = true.
Proof.
  induction s as [|c s IH]; intros H; [reflexivity|].
  unfold has in H. simpl in H. apply orb_false_iff in H as [Hdc Hs].
  cbn [plain_for]. rewrite IH by assumption.
  simpl. rewrite Hdc.
  rewrite Ascii.eqb_sym in Hdc. now rewrite Hdc.
Qed.

(** The scan of what comes before a [d] does not depend on what follows
    from that [d] on. *)
Lemma replace_barrier (pre rest : text) :
  replace old new (pre ++ d :: rest) =
  replace old new pre ++ replace old new (d :: rest).
Proof.
  remember (length pre) as n eqn:Hn.
  revert pre Hn. induction n as [n IH] using lt_wf_ind. intros pre Hn.
  destruct pre as [|c pre].
  - reflexivity.
  - change ((c :: pre) ++ d :: rest) with (c :: (pre ++ d :: rest)).
    destruct (is_prefix old (c :: (pre ++ d :: rest))) eqn:Hp.
    + assert (is_prefix old (c :: pre) = true) as Hq.
      { simpl in *.
        apply andb_true_iff in Hp as [Hdc Hp]. rewrite Hdc. simpl.
        now apply (is_prefix_before _ _ rest d). }
      apply is_prefix_split in Hq as [r Hr].
      change (c :: (pre ++ d :: rest)) with ((c :: pre) ++ d :: rest).
      rewrite Hr, <- app_assoc.
      rewrite !replace_hit by discriminate.
      rewrite (IH (length r)); [now rewrite app_assoc| |reflexivity].
      subst n. rewrite Hr, length_app. simpl. lia.
    + rewrite replace_cons_miss by assumption.
      rewrite (replace_cons_miss _ _ c pre).
      * simpl. f_equal. apply (IH (length pre)); [|reflexivity].
        subst n. simpl. lia.
      * destruct (is_prefix old (c :: pre)) eqn:Hq; [|reflexivity].
        apply (is_prefix_extend _ _ (d :: rest)) in Hq.
        simpl in Hq, Hp. congruence.
Qed.

(** An occurrence of the pattern is replaced, independently of the text
    around it. *)
Lemma replace_around_hit (pre post : text) :
  replace old new (pre ++ old ++ post) =
  replace old new pre ++ new ++ replace old new post.
Proof.
  change (pre ++ old ++ post) with (pre ++ d :: (body ++ post)).
  rewrite replace_barrier.
  change (d :: (body ++ post)) with (old ++ post).
  now rewrite replace_hit by discriminate.
Qed.

(** A text that begins with [d] and is plain for the pattern is kept,
    independently of the text around it. *)
Lemma replace_around_plain (u pre post : text) :
  plain_for old (d :: u) = true ->
  replace old new (pre ++ (d :: u) ++ post) =
  replace old new pre ++ (d :: u) ++ replace old new post.
Proof.
  intros H.
  change (pre ++ (d :: u) ++ post) with (pre ++ d :: (u ++ post)).
  rewrite replace_barrier.
  change (d :: (u ++ post)) with ((d :: u) ++ post).
  now rewrite replace_plain.
Qed.

End Barrier.

(** ** Placeholders *)

Lemma placeholder_shape (name : string) :
  placeholder name = "$"%char :: ("{"%char :: chars name ++ ["}"%char]).
Proof. reflexivity. Qed.

Lemma has_app (c : ascii) (u v : text) :
  has c (u ++ v) = has c u || has c v.
Proof. unfold has. apply existsb_app. Qed.

Lemma chars_inj (a b : string) : chars a = chars b -> a = b.
Proof.
  unfold chars. intros H.
  rewrite <- (string_of_list_ascii_of_string a).
  rewrite <- (string_of_list_ascii_of_string b). now rewrite H.
Qed.

Lemma var_names_token_name (name : string) :
  In name var_names -> token_name name = true.
Proof.
  intros [<-|[<-|[<-|[<-|[]]]]]; reflexivity.
Qed.

Lemma var_names_NoDup : List.NoDup var_names.
Proof.
  apply NoDup_ListNoDup, (bool_decide_unpack _). vm_compute. exact I.
Qed.

Lemma recognized_In (name : string) :
  recognized name = true <-> In name var_names.
Proof.
  unfold recognized. rewrite existsb_exists. split.
  - intros (k & Hk & E). apply String.eqb_eq in E. now subst.
  - intros H. exists name. split; [assumption|apply String.eqb_refl].
Qed.

Lemma placeholder_body_free (name : string) :
  token_name name = true ->
  has "$" ("{"%char :: chars name ++ ["}"%char]) = false.
Proof.
  unfold token_name. intros H. apply andb_true_iff in H as [H _].
  apply negb_true_iff in H.
  change ("{"%char :: chars name ++ ["}"%char])
    with (["{"%char] ++ chars name ++ ["}"%char]).
  rewrite !has_app, H. reflexivity.
Qed.

(** One placeholder neither starts another one nor is cut off by its end. *)
Lemma placeholder_apart (k name : string) :
  token_name k = true -> token_name name = true -> k <> name ->
  is_prefix (placeholder k) (placeholder name) = false.
Proof.
  intros Hk Hn Hne.
  destruct (is_prefix (placeholder k) (placeholder name)) eqn:E;
    [|reflexivity].
  exfalso. apply Hne, chars_inj.
  unfold token_name in Hk, Hn.
  apply andb_true_iff in Hk as [_ Hk]. apply andb_true_iff in Hn as [_ Hn].
  apply negb_true_iff in Hk, Hn.
  rewrite !placeholder_shape in E. simpl in E.
  now apply (is_prefix_closed _ _ [] "}"%char).
Qed.

Lemma placeholder_plain_for (k name : string) :
  token_name k = true -> token_name name = true -> k <> name ->
  plain_for (placeholder k) (placeholder name) = true.
Proof.
  intros Hk Hn Hne.
  rewrite (placeholder_shape name). cbn [plain_for].
  rewrite <- (placeholder_shape name).
  rewrite (placeholder_apart k name), (placeholder_apart name k)
    by (assumption || congruence).
  rewrite (placeholder_shape k). apply plain_for_without.
  now apply placeholder_body_free.
Qed.

(** ** One replacement of the loop, around a placeholder *)

Lemma replace_around_other (k name : string) (v pre post : text) :
  token_name k = true -> token_name name = true -> k <> name ->
  replace (placeholder k) v (pre ++ placeholder name ++ post) =
  replace (placeholder k) v pre ++ placeholder name ++
  replace (placeholder k) v post.
Proof.
  intros Hk Hn Hne.
  assert (Hp := placeholder_plain_for k name Hk Hn Hne).
  rewrite (placeholder_shape name) in *. rewrite (placeholder_shape k) in *.
  apply replace_around_plain; [|assumption].
  now apply placeholder_body_free.
Qed.

Lemma replace_around_same (k : string) (v pre post : text) :
  token_name k = true ->
  replace (placeholder k) v (pre ++ placeholder k ++ post) =
  replace (placeholder k) v pre ++ v ++ replace (placeholder k) v post.
Proof.
  intros Hk. rewrite (placeholder_shape k).
  apply replace_around_hit. now apply placeholder_body_free.
Qed.

Lemma replace_join_same (k : string) (v : text) (parts : list text) :
  token_name k = true ->
  replace (placeholder k) v (join (placeholder k) parts) =
  join v (map (replace (placeholder k) v) parts).
Proof.
  intros Hk. induction parts as [|p [|q rest] IH].
  - reflexivity.
  - reflexivity.
  - change (join (placeholder k) (p :: q :: rest))
      with (p ++ placeholder k ++ join (placeholder k) (q :: rest)).
    rewrite replace_around_same, IH by assumption. reflexivity.
Qed.

(** ** The loop *)

Lemma substitute_vars_app (t1 t2 : list (string * text)) (content : text) :
  substitute_vars (t1 ++ t2) content =
  substitute_vars t2 (substitute_vars t1 content).
Proof. apply fold_left_app. Qed.

Lemma vars_to_sub_entries (env : gmap string text) :
  vars_to_sub env = entries env var_names.
Proof. reflexivity. Qed.

Lemma entries_app (env : gmap string text) (l1 l2 : list string) :
  entries env (l1 ++ l2) = entries env l1 ++ entries env l2.
Proof. apply map_app. Qed.

(** The loop leaves a placeholder that is not among its keys where it is,
    and handles the text on either side of it separately. *)
Lemma substitute_vars_around (name : string) (table : list (string * text)) :
  token_name name = true -> keys_apart table name ->
  forall pre post,
    substitute_vars table (pre ++ placeholder name ++ post) =
    substitute_vars table pre ++ placeholder name ++
    substitute_vars table post.
Proof.
  intros Hn. induction table as [|[k v] table IH]; intros Hk pre post.
  - reflexivity.
  - inversion Hk as [|? ? [Hk1 Hk2] Hk']; subst. simpl in Hk1, Hk2.
    cbn [substitute_vars fold_left]. unfold substitute_var at 2 4 6.
    simpl fst. simpl snd.
    rewrite replace_around_other by assumption.
    apply (IH Hk').
Qed.

Lemma substitute_vars_join (name : string) (table : list (string * text))
    (parts : list text) :
  token_name name = true -> keys_apart table name ->
  substitute_vars table (join (placeholder name) parts) =
  join (placeholder name) (map (substitute_vars table) parts).
Proof.
  intros Hn Hk. induction parts as [|p [|q rest] IH].
  - simpl. induction table as [|[k v] table IHt]; [reflexivity|].
    inversion Hk; subst. cbn [substitute_vars fold_left].
    unfold substitute_var at 2. rewrite replace_nil by discriminate.
    now apply IHt.
  - reflexivity.
  - change (join (placeholder name) (p :: q :: rest))
      with (p ++ placeholder name ++ join (placeholder name) (q :: rest)).
    rewrite substitute_vars_around, IH by assumption. reflexivity.
Qed.

(** ** Templates given by their pieces *)

Lemma render_cons (p : piece) (pieces : list piece) :
  render (p :: pieces) = render_piece p ++ render pieces.
Proof. reflexivity. Qed.

Lemma replace_render (k : string) (v : text) (pieces : list piece) :
  token_name k = true -> Forall (piece_ready k) pieces ->
  replace (placeholder k) v (render pieces) =
  render (map (fill_one k v) pieces).
Proof.
  intros Hk H. induction H as [|p pieces Hp _ IH]; [reflexivity|].
  rewrite render_cons. cbn [map]. rewrite render_cons.
  destruct p as [s|n]; cbn [render_piece fill_one piece_ready] in *.
  - now rewrite replace_plain, IH.
  - destruct (String.eqb n k) eqn:E; cbn [render_piece].
    + apply String.eqb_eq in E. subst n.
      now rewrite replace_hit, IH by discriminate.
    + apply String.eqb_neq in E.
      rewrite replace_plain, IH; [reflexivity|].
      apply placeholder_plain_for; congruence.
Qed.

Lemma fill_names_cons (env : gmap string text) (k : string)
    (rest : list string) (p : piece) :
  fill_names env rest (fill_one k (resolve env k) p) =
  fill_names env (k :: rest) p.
Proof.
  destruct p as [s|n]; [reflexivity|]. cbn [fill_one fill_names existsb].
  destruct (String.eqb n k) eqn:E; [|reflexivity].
  apply String.eqb_eq in E. now subst n.
Qed.

(** The loop over [names] turns every placeholder among [names] into the
    value of its variable, provided the pieces are settled. *)
Lemma substitute_vars_render (env : gmap string text) (names : list string) :
  Forall (fun k => token_name k = true) names ->
  forall pieces,
    Forall (piece_settled env names) pieces ->
    substitute_vars (entries env names) (render pieces) =
    render (map (fill_names env names) pieces).
Proof.
  induction names as [|k rest IH]; intros Hn pieces Hp.
  - cbn [entries map substitute_vars fold_left]. f_equal.
    rewrite <- (map_id pieces) at 1. apply map_ext.
    now intros [s|n].
  - inversion Hn as [|? ? Hk Hrest]; subst.
    cbn [entries map substitute_vars fold_left].
    unfold substitute_var at 2. cbn [fst snd].
    rewrite replace_render; [|assumption|].
    + change (fold_left substitute_var
                (map (fun name => (name, resolve env name)) rest))
        with (substitute_vars (entries env rest)).
      rewrite IH; [|assumption|].
      * rewrite map_map. f_equal. apply map_ext.
        intros p. apply fill_names_cons.
      * apply List.Forall_map. eapply List.Forall_impl; [|exact Hp].
        intros [s|n]; cbn [piece_settled fill_one].
        -- intros H j Hj. apply H. now right.
        -- intros [Hn' H]. cbn [after_in] in H.
           rewrite String.eqb_sym in H.
           destruct (String.eqb n k) eqn:E; cbn [piece_settled].
           ++ apply String.eqb_eq in E. subst n. exact H.
           ++ now split.
    + eapply List.Forall_impl; [|exact Hp].
      intros [s|n]; cbn [piece_settled piece_ready].
      * intros H. apply H. now left.
      * now intros [Hn' _].
Qed.

(** Once every placeholder of the template has been handled, the result is
    the literal expansion. *)
Lemma render_filled (env : gmap string text) (names : list string)
    (pieces : list piece) :
  Forall (fun p => match p with
                   | Lit _ => True
                   | Tok n => In n names
                   end) pieces ->
  render (map (fill_names env names) pieces) = expand_literally env pieces.
Proof.
  intros H. induction H as [|p pieces Hp _ IH]; [reflexivity|].
  cbn [map]. rewrite render_cons. unfold expand_literally in *.
  cbn [map concat]. rewrite IH. f_equal.
  destruct p as [s|n]; [reflexivity|]. cbn [fill_names expand_piece].
  replace (existsb (String.eqb n) names) with true; [reflexivity|].
  symmetry. apply existsb_exists. exists n.
  split; [assumption|apply String.eqb_refl].
Qed.

Lemma after_in_incl (names : list string) (n j : string) :
  In j (after_in names n) -> In j names.
Proof.
  induction names as [|k rest IH]; [intros []|]. cbn [after_in].
  destruct (String.eqb k n); intros H; right; auto.
Qed.

Lemma after_in_NoDup (names : list string) (n : string) :
  List.NoDup names -> ~ In n (after_in names n).
Proof.
  induction 1 as [|k rest Hk _ IH]; [intros []|]. cbn [after_in].
  destruct (String.eqb k n) eqn:E.
  - apply String.eqb_eq in E. now subst.
  - exact IH.
Qed.

Lemma plain_spec (s : text) :
  plain s = true <->
  forall k, In k var_names -> plain_for (placeholder k) s = true.
Proof. unfold plain. apply forallb_forall. Qed.

(** ** The loop before, at and after one variable *)

Lemma keys_apart_before (env : gmap string text) (before after : list string)
    (name : string) :
  var_names = before ++ name :: after ->
  keys_apart (entries env before) name.
Proof.
  intros H. assert (Hnd := var_names_NoDup). rewrite H in Hnd.
  apply List.NoDup_remove_2 in Hnd.
  unfold keys_apart, entries. apply List.Forall_map, List.Forall_forall.
  intros k Hk. cbn [fst]. split.
  - apply var_names_token_name. rewrite H. apply in_or_app. now left.
  - intros ->. apply Hnd, in_or_app. now left.
Qed.

Lemma keys_apart_unknown (env : gmap string text) (name : string) :
  ~ In name var_names -> keys_apart (vars_to_sub env) name.
Proof.
  intros H. rewrite vars_to_sub_entries.
  unfold keys_apart, entries. apply List.Forall_map, List.Forall_forall.
  intros k Hk. cbn [fst]. split.
  - now apply var_names_token_name.
  - now intros ->.
Qed.

Lemma substitute_split (env : gmap string text) (before after : list string)
    (name : string) (content : text) :
  var_names = before ++ name :: after ->
  substitute env content =
  substitute_vars (entries env after)
    (substitute_vars (entries env (before ++ [name])) content).
Proof.
  intros H. unfold substitute.
  rewrite vars_to_sub_entries, H, <- substitute_vars_app, <- entries_app.
  now rewrite <- app_assoc.
Qed.

(** Up to and including the turn of [name], the loop replaces the
    occurrences of its placeholder that separate [parts], and handles each
    part by itself. *)
Lemma substitute_upto_join (env : gmap string text)
    (before after : list string) (name : string) (parts : list text) :
  var_names = before ++ name :: after ->
  substitute_vars (entries env (before ++ [name]))
    (join (placeholder name) parts) =
  join (resolve env name)
    (map (substitute_vars (entries env (before ++ [name]))) parts).
Proof.
  intros H.
  assert (token_name name = true) as Hn.
  { apply var_names_token_name. rewrite H. apply in_or_app.
    right. now left. }
  rewrite entries_app, substitute_vars_app.
  rewrite substitute_vars_join
    by (assumption || now apply (keys_apart_before env before after)).
  cbn [entries map substitute_vars fold_left].
  unfold substitute_var at 1. cbn [fst snd].
  rewrite replace_join_same by assumption. rewrite map_map.
  f_equal. apply map_ext. intros p.
  now rewrite substitute_vars_app.
Qed.

Lemma render_joined (name : string) (parts : list text) :
  render (joined name parts) = join (placeholder name) parts.
Proof.
  induction parts as [|p [|q rest] IH]; [reflexivity| |].
  - apply app_nil_r.
  - change (joined name (p :: q :: rest))
      with (Lit p :: Tok name :: joined name (q :: rest)).
    rewrite !render_cons, IH. reflexivity.
Qed.

Lemma expand_joined (env : gmap string text) (name : string)
    (parts : list text) :
  expand_literally env (joined name parts) = join (resolve env name) parts.
Proof.
  induction parts as [|p [|q rest] IH]; [reflexivity| |].
  - apply app_nil_r.
  - change (joined name (p :: q :: rest))
      with (Lit p :: Tok name :: joined name (q :: rest)).
    unfold expand_literally in *. cbn [map concat expand_piece].
    now rewrite IH.
Qed.

Lemma join_nil_sep (parts : list text) : join [] parts = concat parts.
Proof.
  induction parts as [|p [|q rest] IH]; [reflexivity| |].
  - simpl. now rewrite app_nil_r.
  - change (join [] (p :: q :: rest)) with (p ++ [] ++ join [] (q :: rest)).
    now rewrite IH.
Qed.

Lemma settled_piece_sound (env : gmap string text) (p : piece) :
  settled_piece env p = true ->
  piece_settled env var_names p /\
  match p with
  | Lit _ => True
  | Tok n => In n var_names
  end.
Proof.
  destruct p as [s|n]; cbn [settled_piece piece_settled]; intros H.
  - split; [|exact I]. now apply plain_spec.
  - apply andb_true_iff in H as [Hr Hs]. apply recognized_In in Hr.
    split; [split|exact Hr].
    + now apply var_names_token_name.
    + unfold settled in Hs. now rewrite forallb_forall in Hs.
Qed.

(** The loop in declaration order on a template whose pieces are settled. *)
Lemma substitute_pieces (env : gmap string text) (pieces : list piece) :
  Forall (piece_settled env var_names) pieces ->
  Forall (fun p => match p with
                   | Lit _ => True
                   | Tok n => In n var_names
                   end) pieces ->
  substitute env (render pieces) = expand_literally env pieces.
Proof.
  intros Hs Hr. unfold substitute. rewrite vars_to_sub_entries.
  rewrite substitute_vars_render.
  - now apply render_filled.
  - apply List.Forall_forall. apply var_names_token_name.
  - exact Hs.
Qed.

Lemma joined_settled (env : gmap string text) (name : string)
    (parts : list text) :
  In name var_names -> forallb plain parts = true ->
  settled env var_names name = true ->
  forallb (settled_piece env) (joined name parts) = true.
Proof.
  intros Hn Hp Hs. induction parts as [|p [|q rest] IH]; [reflexivity| |].
  - simpl in *. now rewrite andb_true_r in *.
  - change (joined name (p :: q :: rest))
      with (Lit p :: Tok name :: joined name (q :: rest)).
    cbn [forallb] in Hp. apply andb_true_iff in Hp as [Hp Hrest].
    cbn [forallb settled_piece]. rewrite Hp, Hs, IH by exact Hrest.
    replace (recognized name) with true; [reflexivity|].
    symmetry. now apply recognized_In.
Qed.

(** A template of plain parts around the placeholder of a settled value. *)
Lemma substitute_joined (env : gmap string text) (name : string)
    (parts : list text) :
  In name var_names -> forallb plain parts = true ->
  settled env var_names name = true ->
  substitute env (join (placeholder name) parts) =
  join (resolve env name) parts.
Proof.
  intros Hn Hp Hs.
  assert (H := joined_settled env name parts Hn Hp Hs).
  rewrite forallb_forall in H.
  rewrite <- render_joined, <- expand_joined.
  apply substitute_pieces; apply List.Forall_forall; intros p Hin;
    apply H, settled_piece_sound in Hin; tauto.
Qed.

(** * The claims *)

(** The end-to-end example: [KRATOS_DSN] is set, [KRATOS_CIPHER_SECRET] is
    not. *)
Example end_to_end :
  substitute env_example (chars "DSN=${KRATOS_DSN}
SECRET=${KRATOS_CIPHER_SECRET}
") = chars "DSN=postgres://x
SECRET=
".
Proof. reflexivity. Qed.

(** An occurrence that is removed may leave a new one behind: the two halves
    around it join. *)
Example removal_joins_neighbours :
  substitute empty (chars "${KRATOS_DSN${KRATOS_DSN}}") =
  chars "${KRATOS_DSN}".
Proof. reflexivity. Qed.

(** ** Templates without placeholders *)

(** C3.  A template that contains none of the four placeholders
    [${KRATOS_DSN}], [${KRATOS_CIPHER_SECRET}], [${KRATOS_COOKIE_SECRET}],
    [${KRATOS_SMTP_CONNECTION_URI}] is written out unchanged, whatever the
    environment. *)
Theorem substitute_identity (env : gmap string text) (t : text) :
  mentions_none t = true -> substitute env t = t.
Proof.
  intros H. unfold mentions_none in H. rewrite forallb_forall in H.
  unfold substitute. rewrite vars_to_sub_entries.
  assert (forall names, incl names var_names ->
            substitute_vars (entries env names) t = t) as Hloop.
  { induction names as [|k rest IH]; intros Hincl; [reflexivity|].
    cbn [entries map substitute_vars fold_left].
    unfold substitute_var at 2. cbn [fst snd].
    rewrite replace_absent.
    - apply IH. intros x Hx. apply Hincl. now right.
    - apply negb_true_iff, H, Hincl. now left. }
  apply Hloop, incl_refl.
Qed.

Lemma substitute_identity_witness :
  mentions_none (chars "log:
  level: ${LOG_LEVEL}
  cost: $5 {approx}") = true /\
  substitute env_nested (chars "log:
  level: ${LOG_LEVEL}
  cost: $5 {approx}") = chars "log:
  level: ${LOG_LEVEL}
  cost: $5 {approx}".
Proof.
  split; [reflexivity|].
  apply (substitute_identity env_nested). reflexivity.
Defined.

(** ** Unset variables *)

(** C4.  If the environment variable of one of the four names is unset, the
    name resolves to the empty string (the look-up cannot fail), and every
    occurrence of its placeholder in the template is replaced by the empty
    string: for a template cut at occurrences of the placeholder, the output
    is made of the parts alone, each handled by the loop up to the turn of
    the variable, joined without anything between them, and then handled by
    the rest of the loop.  When the parts are plain text the output is the
    template with the placeholder removed. *)
Theorem unset_variable_removed (env : gmap string text)
    (before after : list string) (name : string) :
  var_names = before ++ name :: after ->
  env !! name = None ->
  resolve env name = [] /\
  (forall parts,
     substitute env (join (placeholder name) parts) =
     substitute_vars (entries env after)
       (concat (map (substitute_vars (entries env (before ++ [name])))
                  parts))) /\
  (forall parts,
     forallb plain parts = true ->
     substitute env (join (placeholder name) parts) = concat parts).
Proof.
  intros Hn Hu.
  assert (resolve env name = []) as Hr.
  { unfold resolve, environ_get. now rewrite Hu. }
  split; [exact Hr|]. split; intros parts.
  - rewrite (substitute_split env before after name) by assumption.
    rewrite (substitute_upto_join env before after) by assumption.
    now rewrite Hr, join_nil_sep.
  - intros Hp. rewrite substitute_joined.
    + now rewrite Hr, join_nil_sep.
    + rewrite Hn. apply in_or_app. right. now left.
    + assumption.
    + unfold settled. rewrite Hr. apply forallb_forall.
      intros k _. reflexivity.
Qed.

Lemma unset_variable_removed_witness :
  env_example !! "KRATOS_CIPHER_SECRET"%string = None /\
  resolve env_example "KRATOS_CIPHER_SECRET" = [] /\
  substitute env_example
    (join (placeholder "KRATOS_CIPHER_SECRET")
       [chars "SECRET="; chars ";OLD="; chars ";"]) =
  chars "SECRET=;OLD=;".
Proof.
  assert (H := unset_variable_removed env_example ["KRATOS_DSN"%string]
                 ["KRATOS_COOKIE_SECRET"; "KRATOS_SMTP_CONNECTION_URI"]%string
                 "KRATOS_CIPHER_SECRET" eq_refl eq_refl).
  destruct H as (Hr & _ & Hp).
  split; [reflexivity|]. split; [exact Hr|].
  apply (Hp [chars "SECRET="; chars ";OLD="; chars ";"]). reflexivity.
Defined.

(** ** Placeholders of other names *)

(** C6.  A [${...}] token whose name is not one of the four variable names
    (a name being free of dollar signs and closing braces) is left in the
    output as it stands, and the text on either side of it is substituted
    as if the token were not there; the substitution itself cannot fail. *)
Theorem unknown_placeholder_verbatim (env : gmap string text)
    (name : string) (pre post : text) :
  token_name name = true -> ~ In name var_names ->
  substitute env (pre ++ placeholder name ++ post) =
  substitute env pre ++ placeholder name ++ substitute env post.
Proof.
  intros Hn Hu. unfold substitute.
  apply substitute_vars_around; [assumption|].
  now apply keys_apart_unknown.
Qed.

Lemma unknown_placeholder_verbatim_witness :
  token_name "UNKNOWN_VAR" = true /\
  ~ In "UNKNOWN_VAR"%string var_names /\
  substitute env_example
    (chars "a=${KRATOS_DSN};b=" ++ placeholder "UNKNOWN_VAR" ++
     chars ";c=${KRATOS_DSN}") =
  chars "a=postgres://x;b=${UNKNOWN_VAR};c=postgres://x".
Proof.
  assert (~ In "UNKNOWN_VAR"%string var_names) as Hu.
  { simpl. intuition discriminate. }
  split; [reflexivity|]. split; [exact Hu|].
  rewrite (unknown_placeholder_verbatim env_example "UNKNOWN_VAR"
             (chars "a=${KRATOS_DSN};b=") (chars ";c=${KRATOS_DSN}")
             eq_refl Hu).
  reflexivity.
Defined.

(** ** Values that hold placeholders *)

Lemma inert_settled (env : gmap string text) (order : list string)
    (name : string) :
  Permutation var_names order -> inert env name = true ->
  forall j, In j (after_in order name) ->
            plain_for (placeholder j) (resolve env name) = true.
Proof.
  intros Hperm Hi j Hj.
  assert (j <> name) as Hne.
  { intros ->. revert Hj. apply after_in_NoDup.
    eapply Permutation_NoDup; [exact Hperm|apply var_names_NoDup]. }
  unfold inert in Hi. rewrite forallb_forall in Hi.
  assert (In j var_names) as Hin.
  { eapply Permutation_in; [symmetry; exact Hperm|].
    now apply (after_in_incl order name). }
  apply Hi in Hin. apply String.eqb_neq in Hne. now rewrite Hne in Hin.
Qed.

(** The loop in any order on a template whose pieces are inert. *)
Lemma substitute_order (env : gmap string text) (order : list string)
    (pieces : list piece) :
  Permutation var_names order ->
  forallb (inert_piece env) pieces = true ->
  substitute_vars (entries env order) (render pieces) =
  expand_literally env pieces.
Proof.
  intros Hperm H. rewrite forallb_forall in H.
  assert (forall k, In k order -> In k var_names) as Hin.
  { intros k Hk. eapply Permutation_in; [symmetry; exact Hperm|exact Hk]. }
  rewrite substitute_vars_render.
  - apply render_filled. apply List.Forall_forall. intros [s|n] Hp; [exact I|].
    apply H in Hp. cbn [inert_piece] in Hp.
    apply andb_true_iff in Hp as [Hp _]. apply recognized_In in Hp.
    eapply Permutation_in; [exact Hperm|exact Hp].
  - apply List.Forall_forall. intros k Hk.
    now apply var_names_token_name, Hin.
  - apply List.Forall_forall. intros [s|n] Hp; apply H in Hp;
      cbn [inert_piece piece_settled] in *.
    + intros k Hk. apply plain_spec; [exact Hp|now apply Hin].
    + apply andb_true_iff in Hp as [Hr Hi]. split.
      * now apply var_names_token_name, recognized_In.
      * now apply inert_settled.
Qed.

(** C1, as amended.  The values are inserted literally, and no placeholder
    they hold is expanded, on every template made of plain text and of
    recognized placeholders whose values are settled: a settled value holds
    no placeholder of a variable declared later in the table and does not
    end with the beginning of one.  (It may hold its own placeholder and
    those of variables declared earlier: these are never expanded.) *)
Theorem settled_values_inserted_literally (env : gmap string text)
    (pieces : list piece) :
  forallb (settled_piece env) pieces = true ->
  substitute env (render pieces) = expand_literally env pieces.
Proof.
  intros H. rewrite forallb_forall in H.
  apply substitute_pieces; apply List.Forall_forall; intros p Hp.
  - apply H, settled_piece_sound in Hp. apply Hp.
  - apply H, settled_piece_sound in Hp. apply Hp.
Qed.

Lemma settled_values_inserted_literally_witness :
  forallb (settled_piece env_backward)
    [Tok "KRATOS_SMTP_CONNECTION_URI"; Lit (chars "|"); Tok "KRATOS_DSN"] =
  true /\
  substitute env_backward
    (render [Tok "KRATOS_SMTP_CONNECTION_URI"; Lit (chars "|");
             Tok "KRATOS_DSN"]) =
  chars "${KRATOS_DSN}|postgres://x".
Proof.
  assert (forallb (settled_piece env_backward)
            [Tok "KRATOS_SMTP_CONNECTION_URI"; Lit (chars "|");
             Tok "KRATOS_DSN"] = true) as H by (vm_compute; reflexivity).
  split; [exact H|].
  rewrite (settled_values_inserted_literally env_backward _ H).
  reflexivity.
Defined.

(** C1, as stated, fails: the value of [KRATOS_DSN] holds the placeholder of
    [KRATOS_CIPHER_SECRET], declared after it, and the second replacement
    expands it. *)
Lemma nested_value_is_expanded :
  resolve env_nested "KRATOS_DSN" = chars "${KRATOS_CIPHER_SECRET}" /\
  substitute env_nested (chars "${KRATOS_DSN}") = chars "s3cret" /\
  substitute env_nested (render [Tok "KRATOS_DSN"]) <>
  expand_literally env_nested [Tok "KRATOS_DSN"].
Proof.
  split; [reflexivity|]. split; [reflexivity|].
  intros H. vm_compute in H. discriminate H.
Qed.

(** C2, as amended.  Running the replacements in any order of the table
    gives the output of the declared order on every template made of plain
    text and of recognized placeholders whose values are inert: an inert
    value holds no placeholder of another variable and does not end with
    the beginning of one. *)
Theorem order_irrelevant_for_inert_values (env : gmap string text)
    (pieces : list piece) (table : list (string * text)) :
  forallb (inert_piece env) pieces = true ->
  Permutation table (vars_to_sub env) ->
  substitute_vars table (render pieces) = substitute env (render pieces).
Proof.
  intros Hp Hperm. rewrite vars_to_sub_entries in Hperm. unfold entries in Hperm.
  apply Permutation_map_inv in Hperm as (order & -> & Hperm).
  change (map (fun name => (name, resolve env name)) order)
    with (entries env order).
  rewrite substitute_order by assumption.
  unfold substitute. rewrite vars_to_sub_entries.
  now rewrite substitute_order by (assumption || apply Permutation_refl).
Qed.

Lemma order_irrelevant_for_inert_values_witness :
  forallb (inert_piece env_special)
    [Lit (chars "dsn: "); Tok "KRATOS_DSN"; Lit (chars "
cookie: "); Tok "KRATOS_COOKIE_SECRET"] = true /\
  Permutation (rev (vars_to_sub env_special)) (vars_to_sub env_special) /\
  substitute_vars (rev (vars_to_sub env_special))
    (render [Lit (chars "dsn: "); Tok "KRATOS_DSN"; Lit (chars "
cookie: "); Tok "KRATOS_COOKIE_SECRET"]) =
  substitute env_special
    (render [Lit (chars "dsn: "); Tok "KRATOS_DSN"; Lit (chars "
cookie: "); Tok "KRATOS_COOKIE_SECRET"]).
Proof.
  assert (Permutation (rev (vars_to_sub env_special))
            (vars_to_sub env_special)) as Hperm.
  { apply Permutation_sym, Permutation_rev. }
  assert (forallb (inert_piece env_special)
            [Lit (chars "dsn: "); Tok "KRATOS_DSN"; Lit (chars "
cookie: "); Tok "KRATOS_COOKIE_SECRET"] = true) as H
    by (vm_compute; reflexivity).
  split; [exact H|]. split; [exact Hperm|].
  exact (order_irrelevant_for_inert_values env_special _ _ H Hperm).
Defined.

(** C2, as stated, fails: with the table reversed, [KRATOS_DSN] is replaced
    last and the placeholder in its value stays. *)
Lemma reversed_order_differs :
  Permutation (rev (vars_to_sub env_crossed)) (vars_to_sub env_crossed) /\
  substitute env_crossed (chars "dsn: ${KRATOS_DSN}") =
  chars "dsn: smtp://mail" /\
  substitute_vars (rev (vars_to_sub env_crossed))
    (chars "dsn: ${KRATOS_DSN}") =
  chars "dsn: ${KRATOS_SMTP_CONNECTION_URI}".
Proof.
  split; [apply Permutation_sym, Permutation_rev|].
  split; reflexivity.
Qed.

(** ** Every occurrence, and the value as it is *)

(** C5, as amended.  When the turn of a variable comes, every occurrence of
    its placeholder in the template is replaced by its value [S], all
    occurrences alike: for a template cut at occurrences of the placeholder,
    the text after that turn is the parts, each handled by the loop so far,
    joined by [S].  The replacements of the variables declared later then
    run over this text, [S] included (none for the last variable).  When
    the parts are plain text and [S] is settled, the output is the template
    with every occurrence replaced by [S]. *)
Theorem every_occurrence_replaced (env : gmap string text)
    (before after : list string) (name : string) :
  var_names = before ++ name :: after ->
  (forall parts,
     substitute env (join (placeholder name) parts) =
     substitute_vars (entries env after)
       (join (resolve env name)
          (map (substitute_vars (entries env (before ++ [name]))) parts))) /\
  (forall parts,
     forallb plain parts = true ->
     settled env var_names name = true ->
     substitute env (join (placeholder name) parts) =
     join (resolve env name) parts).
Proof.
  intros Hn. split; intros parts.
  - rewrite (substitute_split env before after name) by assumption.
    now rewrite (substitute_upto_join env before after) by assumption.
  - intros Hp Hs. apply substitute_joined; [|assumption|assumption].
    rewrite Hn. apply in_or_app. right. now left.
Qed.

Lemma every_occurrence_replaced_witness :
  forallb plain [chars "primary: "; chars "
replica: "; chars "?ro"] = true /\
  settled env_example var_names "KRATOS_DSN" = true /\
  substitute env_example
    (join (placeholder "KRATOS_DSN")
       [chars "primary: "; chars "
replica: "; chars "?ro"]) =
  chars "primary: postgres://x
replica: postgres://x?ro".
Proof.
  assert (forallb plain [chars "primary: "; chars "
replica: "; chars "?ro"] = true) as Hp by (vm_compute; reflexivity).
  assert (settled env_example var_names "KRATOS_DSN" = true) as Hs
    by (vm_compute; reflexivity).
  split; [exact Hp|]. split; [exact Hs|].
  destruct (every_occurrence_replaced env_example []
              ["KRATOS_CIPHER_SECRET"; "KRATOS_COOKIE_SECRET";
               "KRATOS_SMTP_CONNECTION_URI"]%string "KRATOS_DSN" eq_refl)
    as [_ H].
  rewrite (H _ Hp Hs). reflexivity.
Defined.

(** C5, as stated, fails: both occurrences of [${KRATOS_DSN}] are replaced
    by the value of [KRATOS_DSN], but that value does not reach the output,
    because the replacement for [KRATOS_COOKIE_SECRET] changes it. *)
Lemma replaced_value_is_replaced_again :
  resolve env_twice "KRATOS_DSN" = chars "${KRATOS_COOKIE_SECRET}" /\
  substitute env_twice (chars "a=${KRATOS_DSN};b=${KRATOS_DSN};") =
  chars "a=c00kie;b=c00kie;" /\
  contains (resolve env_twice "KRATOS_DSN")
    (substitute env_twice (chars "a=${KRATOS_DSN};b=${KRATOS_DSN};")) =
  false.
Proof. repeat split; reflexivity. Qed.

Lemma plain_for_opens_nothing (name : string) (s : text) :
  opens_no_placeholder s = true -> plain_for (placeholder name) s = true.
Proof.
  rewrite placeholder_shape.
  induction s as [|c s IH]; intros H; [reflexivity|].
  cbn [opens_no_placeholder] in H. apply andb_true_iff in H as [H Hs].
  cbn [plain_for]. rewrite IH by assumption. rewrite andb_true_r.
  apply negb_true_iff in H. cbn [is_prefix].
  rewrite (Ascii.eqb_sym "$" c).
  destruct (Ascii.eqb c "$"); [|reflexivity].
  destruct s as [|e s]; [discriminate|]. simpl in H.
  cbn [is_prefix]. rewrite (Ascii.eqb_sym "{" e), H. reflexivity.
Qed.

(** A value without a dollar sign before an opening brace or at its end is
    settled, whatever the variable. *)
Lemma opens_nothing_settled (env : gmap string text) (name : string) :
  opens_no_placeholder (resolve env name) = true ->
  settled env var_names name = true.
Proof.
  intros H. unfold settled. apply forallb_forall. intros k _.
  now apply plain_for_opens_nothing.
Qed.

(** C7, as amended.  The replacement is that of a plain substring: the
    replacement for a variable puts its value, whatever characters it has,
    character for character in the place of the placeholder, neither
    escaped nor read as a pattern.  In a template of plain text around one
    placeholder the value stands like that in the output, provided it is
    settled (it holds no placeholder of a variable declared later and does
    not end with the beginning of one; a value without a dollar sign before
    an opening brace or at its end always is). *)
Theorem value_inserted_verbatim (env : gmap string text) (name : string)
    (pre post : text) :
  In name var_names ->
  (forall value,
     substitute_var (pre ++ placeholder name ++ post) (name, value) =
     substitute_var pre (name, value) ++ value ++
     substitute_var post (name, value)) /\
  (plain pre = true -> plain post = true ->
   settled env var_names name = true ->
   substitute env (pre ++ placeholder name ++ post) =
   pre ++ resolve env name ++ post).
Proof.
  intros Hn. split.
  { intros value. unfold substitute_var. cbn [fst snd].
    now apply replace_around_same, var_names_token_name. }
  intros Hpre Hpost Hs.
  change (pre ++ placeholder name ++ post)
    with (join (placeholder name) [pre; post]).
  change (pre ++ resolve env name ++ post)
    with (join (resolve env name) [pre; post]).
  apply substitute_joined; [assumption| |assumption].
  cbn [forallb]. now rewrite Hpre, Hpost.
Qed.

Lemma value_inserted_verbatim_witness :
  resolve env_special "KRATOS_COOKIE_SECRET" = chars "pa$$.*\w+(x)$1" /\
  substitute env_special
    (chars "cookie: [" ++ placeholder "KRATOS_COOKIE_SECRET" ++ chars "]") =
  chars "cookie: [pa$$.*\w+(x)$1]".
Proof.
  assert (In "KRATOS_COOKIE_SECRET"%string var_names) as Hn
    by (simpl; tauto).
  assert (settled env_special var_names "KRATOS_COOKIE_SECRET" = true) as Hs
    by (vm_compute; reflexivity).
  split; [reflexivity|].
  destruct (value_inserted_verbatim env_special "KRATOS_COOKIE_SECRET"
              (chars "cookie: [") (chars "]") Hn) as [_ H].
  rewrite (H eq_refl eq_refl Hs). reflexivity.
Defined.

(** C7, as stated, fails: the value of [KRATOS_COOKIE_SECRET] has a dollar
    sign, a dot and a star, and it does not stand in the output character
    for character, because the placeholder it holds is expanded. *)
Lemma special_value_is_changed :
  resolve env_special_nested "KRATOS_COOKIE_SECRET" =
  chars "$1.00*${KRATOS_SMTP_CONNECTION_URI}" /\
  substitute env_special_nested (chars "${KRATOS_COOKIE_SECRET}") =
  chars "$1.00*smtp://mail" /\
  substitute env_special_nested (chars "${KRATOS_COOKIE_SECRET}") <>
  resolve env_special_nested "KRATOS_COOKIE_SECRET".
Proof.
  split; [reflexivity|]. split; [reflexivity|].
  intros H. vm_compute in H. discriminate H.
Qed.

(** ** The environment and the command line *)

Lemma vars_to_sub_agree (env1 env2 : gmap string text) :
  agree_on_vars env1 env2 -> vars_to_sub env1 = vars_to_sub env2.
Proof.
  unfold agree_on_vars. rewrite List.Forall_forall. intros H.
  unfold vars_to_sub, environ_get.
  rewrite (H "KRATOS_DSN"%string), (H "KRATOS_CIPHER_SECRET"%string),
    (H "KRATOS_COOKIE_SECRET"%string),
    (H "KRATOS_SMTP_CONNECTION_URI"%string) by (simpl; tauto).
  reflexivity.
Qed.

(** C9.  Two environments that agree on [KRATOS_DSN],
    [KRATOS_CIPHER_SECRET], [KRATOS_COOKIE_SECRET] and
    [KRATOS_SMTP_CONNECTION_URI] (same value, or both unset) give the same
    substituted text for every template and the same run of the script for
    every command line and file system: same outcome, same files, same
    printed line.  No other variable has any influence. *)
Theorem other_variables_ignored (env1 env2 : gmap string text) :
  agree_on_vars env1 env2 ->
  (forall t, substitute env1 t = substitute env2 t) /\
  (forall argv w, main argv env1 w = main argv env2 w).
Proof.
  intros H. apply vars_to_sub_agree in H. split.
  - intros t. unfold substitute. now rewrite H.
  - intros argv w. unfold main. now rewrite H.
Qed.

Lemma other_variables_ignored_witness :
  agree_on_vars env_example env_crowded /\
  main ["substitute.py"; "kratos.tmpl.yml"; "kratos.yml"]%string
    env_example world_example =
  main ["substitute.py"; "kratos.tmpl.yml"; "kratos.yml"]%string
    env_crowded world_example.
Proof.
  assert (agree_on_vars env_example env_crowded) as H.
  { unfold agree_on_vars, var_names. repeat apply List.Forall_cons;
      try apply List.Forall_nil; reflexivity. }
  split; [exact H|].
  apply (other_variables_ignored env_example env_crowded H).
Defined.

(** C8.  With fewer than two positional arguments the script fails with
    the argument error ([IndexError] from [sys.argv]) and exit status 1,
    whatever the files: nothing has been read, written or printed.  With
    the two arguments, a readable template and a writable output path, it
    writes the substituted text, prints the confirmation line and ends with
    exit status 0. *)
Theorem argument_error_or_confirmation (argv : list string)
    (env : gmap string text) (w : world) :
  (length (positional argv) < 2 ->
   main argv env w = (inl IndexError, w) /\
   exit_status (main argv env w) = 1) /\
  (forall template_file output_file extra content,
     positional argv = template_file :: output_file :: extra ->
     files w !! template_file = Some content ->
     ~ elem_of output_file (unwritable w) ->
     main argv env w =
     (inr tt,
      World (insert output_file (substitute env content) (files w))
        (unwritable w)
        (stdout w ++ [confirmation template_file output_file])) /\
     exit_status (main argv env w) = 0).
Proof.
  split.
  - intros H.
    assert (main argv env w = (inl IndexError, w)) as Hm.
    { destruct argv as [|prog [|a [|b rest]]]; try reflexivity.
      simpl in H. lia. }
    split; [exact Hm|]. now rewrite Hm.
  - intros template_file output_file extra content Hargv Hread Hwrite.
    destruct argv as [|prog argv]; [discriminate|].
    simpl in Hargv. subst argv.
    assert (main (prog :: template_file :: output_file :: extra) env w =
            (inr tt,
             World (insert output_file (substitute env content) (files w))
               (unwritable w)
               (stdout w ++ [confirmation template_file output_file])))
      as Hm.
    { unfold main, bind, argv_get, read_text, write_text, print, ret.
      simpl. rewrite Hread.
      destruct (decide (elem_of output_file (unwritable w)));
        [contradiction|reflexivity]. }
    split; [exact Hm|]. now rewrite Hm.
Qed.

Lemma argument_error_or_confirmation_witness :
  main ["substitute.py"; "kratos.tmpl.yml"]%string env_example
    world_example = (inl IndexError, world_example) /\
  exit_status
    (main ["substitute.py"; "kratos.tmpl.yml"; "kratos.yml"]%string
       env_example world_example) = 0 /\
  stdout
    (snd (main ["substitute.py"; "kratos.tmpl.yml"; "kratos.yml"]%string
            env_example world_example)) =
  ["Substituted variables in kratos.tmpl.yml -> kratos.yml"%string].
Proof.
  split.
  - apply (argument_error_or_confirmation
             ["substitute.py"; "kratos.tmpl.yml"]%string env_example
             world_example).
    simpl. lia.
  - destruct (argument_error_or_confirmation
                ["substitute.py"; "kratos.tmpl.yml"; "kratos.yml"]%string
                env_example world_example) as [_ H].
    destruct (H "kratos.tmpl.yml"%string "kratos.yml"%string []
                (chars "dsn: ${KRATOS_DSN}") eq_refl eq_refl)
      as [Hm Hs].
    + simpl. apply not_elem_of_empty.
    + split; [exact Hs|]. rewrite Hm. reflexivity.
Defined.

(** C10.  Arguments after the first two are not looked at: the run with
    three or more positional arguments is the run with the first two. *)
Theorem extra_arguments_ignored (prog template_file output_file : string)
    (extra : list string) (env : gmap string text) (w : world) :
  main (prog :: template_file :: output_file :: extra) env w =
  main [prog; template_file; output_file] env w.
Proof. reflexivity. Qed.

(** * Further properties of the script *)

(** ** Runs *)

Lemma main_outcome (argv : list string) (env : gmap string text) (w : world) :
  main argv env w = outcome argv env w.
Proof.
  unfold main, outcome, bind, argv_get, read_text, write_text, print, ret,
    raise.
  destruct (nth_error argv 1) as [t|]; [|reflexivity].
  destruct (nth_error argv 2) as [o|]; [|reflexivity].
  destruct (files w !! t) as [c|]; [|reflexivity].
  destruct (decide (elem_of o (unwritable w))); reflexivity.
Qed.







(** X3.  Whatever the run, every file other than the one named by the
    second argument is left as it was, the set of unwritable paths is left
    as it was, and what was printed before is still there, followed by at
    most one line. *)
Theorem other_files_untouched (argv : list string) (env : gmap string text)
    (w : world) :
  (forall path, nth_error argv 2 <> Some path ->
                files (snd (main argv env w)) !! path = files w !! path) /\
  unwritable (snd (main argv env w)) = unwritable w /\
  exists lines, stdout (snd (main argv env w)) = stdout w ++ lines /\
                length lines <= 1.
Proof.
  rewrite main_outcome. unfold outcome.
  assert (exists lines : list string,
            stdout w = stdout w ++ lines /\ length lines <= 1) as Hsame.
  { exists []. rewrite app_nil_r. split; [reflexivity|simpl; lia]. }
  destruct (nth_error argv 1) as [t|]; [|now repeat split].
  destruct (nth_error argv 2) as [o|]; [|now repeat split].
  destruct (files w !! t) as [c|]; [|now repeat split].
  destruct (decide (elem_of o (unwritable w))); [now repeat split|].
  cbn [snd files unwritable stdout]. split; [|split].
  - intros path Hpath. apply lookup_insert_ne. congruence.
  - reflexivity.
  - exists [confirmation t o]. split; [reflexivity|simpl; lia].
Qed.

Lemma other_files_untouched_witness :
  files
    (snd (main ["substitute.py"; "kratos.tmpl.yml"; "kratos.yml"]%string
            env_example world_example)) !! "kratos.tmpl.yml"%string =
  files world_example !! "kratos.tmpl.yml"%string.
Proof.
  apply (other_files_untouched
           ["substitute.py"; "kratos.tmpl.yml"; "kratos.yml"]%string
           env_example world_example).
  simpl. discriminate.
Defined.

(** X4.  When template and output are different files, running the script
    a second time leaves the files as the first run left them. *)
Theorem second_run_same_files (argv : list string) (env : gmap string text)
    (w : world) :
  (forall path, nth_error argv 1 = Some path ->
                nth_error argv 2 <> Some path) ->
  files (snd (main argv env (snd (main argv env w)))) =
  files (snd (main argv env w)).
Proof.
  intros Hne. rewrite !main_outcome. unfold outcome.
  destruct (nth_error argv 1) as [t|]; [|reflexivity].
  destruct (nth_error argv 2) as [o|]; [|reflexivity].
  assert (o <> t) as Hot.
  { intros ->. now apply (Hne t). }
  destruct (files w !! t) as [c|] eqn:Hc; cbn [snd]; [|now rewrite Hc].
  destruct (decide (elem_of o (unwritable w))) as [Hin|Hout]; cbn [snd].
  - rewrite Hc. now destruct (decide (elem_of o (unwritable w))).
  - cbn [files unwritable stdout].
    rewrite lookup_insert_ne, Hc by assumption.
    destruct (decide (elem_of o (unwritable w))); [contradiction|].
    cbn [snd files]. apply insert_insert_eq.
Qed.

Lemma second_run_same_files_witness :
  files
    (snd (main ["substitute.py"; "kratos.tmpl.yml"; "kratos.yml"]%string
            env_example
            (snd (main ["substitute.py"; "kratos.tmpl.yml"; "kratos.yml"]%string
                    env_example world_example)))) =
  files
    (snd (main ["substitute.py"; "kratos.tmpl.yml"; "kratos.yml"]%string
            env_example world_example)).
Proof.
  apply (second_run_same_files
           ["substitute.py"; "kratos.tmpl.yml"; "kratos.yml"]%string
           env_example world_example).
  intros path H. injection H as <-. discriminate.
Defined.



(** ** The substituted text *)

(** A character that the pattern does not contain separates the scan: the
    text before it and the text after it are handled independently. *)
Lemma replace_around_separator (old new : text) (c : ascii) (a b : text) :
  old <> [] -> has c old = false ->
  replace old new (a ++ c :: b) =
  replace old new a ++ c :: replace old new b.
Proof.
  intros Hold Hc.
  remember (length a) as n eqn:Hn.
  revert a Hn. induction n as [n IH] using lt_wf_ind. intros a Hn.
  destruct a as [|x a].
  - rewrite replace_nil by assumption. simpl. apply replace_cons_miss.
    destruct old as [|y old]; [congruence|].
    unfold has in Hc. simpl in Hc. apply orb_false_iff in Hc as [Hc _].
    simpl. rewrite Ascii.eqb_sym in Hc. now rewrite Hc.
  - change ((x :: a) ++ c :: b) with (x :: (a ++ c :: b)).
    destruct (is_prefix old (x :: (a ++ c :: b))) eqn:Hp.
    + assert (is_prefix old (x :: a) = true) as Hq.
      { now apply (is_prefix_before old (x :: a) b c). }
      apply is_prefix_split in Hq as [r Hr].
      change (x :: (a ++ c :: b)) with ((x :: a) ++ c :: b).
      rewrite Hr, <- app_assoc. rewrite !replace_hit by assumption.
      rewrite (IH (length r)); [now rewrite app_assoc| |reflexivity].
      subst n. rewrite Hr, length_app.
      destruct old; [congruence|simpl; lia].
    + rewrite replace_cons_miss by assumption.
      rewrite (replace_cons_miss old new x a).
      * simpl. f_equal. apply (IH (length a)); [|reflexivity].
        subst n. simpl. lia.
      * destruct (is_prefix old (x :: a)) eqn:Hq; [|reflexivity].
        apply (is_prefix_extend _ _ (c :: b)) in Hq.
        simpl in Hq, Hp. congruence.
Qed.

Lemma substitute_vars_nil (env : gmap string text) (names : list string) :
  substitute_vars (entries env names) [] = [].
Proof.
  induction names as [|k rest IH]; [reflexivity|].
  cbn [entries map substitute_vars fold_left]. exact IH.
Qed.

Lemma substitute_vars_separator (env : gmap string text) (c : ascii)
    (names : list string) :
  incl names var_names -> separator c = true ->
  forall a b,
    substitute_vars (entries env names) (a ++ c :: b) =
    substitute_vars (entries env names) a ++
    c :: substitute_vars (entries env names) b.
Proof.
  intros Hincl Hc. unfold separator in Hc. rewrite forallb_forall in Hc.
  induction names as [|k rest IH]; intros a b; [reflexivity|].
  cbn [entries map substitute_vars fold_left].
  unfold substitute_var at 2 4 6. cbn [fst snd].
  rewrite replace_around_separator.
  - apply IH. intros x Hx. apply Hincl. now right.
  - discriminate.
  - apply negb_true_iff, Hc, Hincl. now left.
Qed.

(** X6.  The substitution works line by line: lines (or any stretches of
    text separated by a character that occurs in none of the four
    placeholders) are substituted independently of each other, whatever the
    environment. *)
Theorem lines_substituted_independently (env : gmap string text) (c : ascii)
    (lines : list text) :
  separator c = true ->
  substitute env (join [c] lines) = join [c] (map (substitute env) lines).
Proof.
  intros Hc. unfold substitute. rewrite vars_to_sub_entries.
  induction lines as [|p [|q rest] IH].
  - apply substitute_vars_nil.
  - reflexivity.
  - change (join [c] (p :: q :: rest)) with (p ++ c :: join [c] (q :: rest)).
    rewrite substitute_vars_separator
      by (assumption || apply incl_refl).
    rewrite IH. reflexivity.
Qed.

Lemma lines_substituted_independently_witness :
  separator "010" = true /\
  substitute env_nested
    (join ["010"%char]
       [chars "dsn: ${KRATOS_DSN}"; chars "secret: ${KRATOS_";
        chars "CIPHER_SECRET}"]) =
  join ["010"%char]
    [chars "dsn: s3cret"; chars "secret: ${KRATOS_"; chars "CIPHER_SECRET}"].
Proof.
  assert (separator "010" = true) as H by (vm_compute; reflexivity).
  split; [exact H|].
  rewrite (lines_substituted_independently env_nested "010" _ H).
  reflexivity.
Defined.

Lemma substitute_vars_plain_prefix (env : gmap string text)
    (names : list string) (pre rest : text) :
  incl names var_names -> plain pre = true ->
  substitute_vars (entries env names) (pre ++ rest) =
  pre ++ substitute_vars (entries env names) rest.
Proof.
  intros Hincl Hp. rewrite plain_spec in Hp. revert rest.
  induction names as [|k names IH]; intros rest; [reflexivity|].
  cbn [entries map substitute_vars fold_left].
  unfold substitute_var at 2 4. cbn [fst snd].
  rewrite replace_plain by (apply Hp, Hincl; now left).
  apply IH. intros x Hx. apply Hincl. now right.
Qed.

(** X7.  Plain text at the beginning of the template (text in which none of
    the four placeholders occurs, and which does not end with the beginning
    of one) is copied as it is and has no influence on what follows. *)
Theorem plain_prefix_copied (env : gmap string text) (pre rest : text) :
  plain pre = true ->
  substitute env (pre ++ rest) = pre ++ substitute env rest.
Proof.
  intros Hp. unfold substitute. rewrite vars_to_sub_entries.
  now apply substitute_vars_plain_prefix; [apply incl_refl|].
Qed.

Lemma plain_prefix_copied_witness :
  plain (chars "# price: $5 {net}, see ${README}
") = true /\
  substitute env_example (chars "# price: $5 {net}, see ${README}
" ++ chars "dsn: ${KRATOS_DSN}") =
  chars "# price: $5 {net}, see ${README}
dsn: postgres://x".
Proof.
  assert (plain (chars "# price: $5 {net}, see ${README}
") = true) as H by (vm_compute; reflexivity).
  split; [exact H|].
  rewrite (plain_prefix_copied env_example _ (chars "dsn: ${KRATOS_DSN}") H).
  reflexivity.
Defined.

Lemma plain_app (u v : text) :
  plain u = true -> plain v = true -> plain (u ++ v) = true.
Proof.
  rewrite !plain_spec. intros Hu Hv k Hk.
  apply plain_for_app; auto.
Qed.

Lemma clean_piece_settled (env : gmap string text) (p : piece) :
  clean_piece env p = true -> settled_piece env p = true.
Proof.
  destruct p as [s|n]; cbn [clean_piece settled_piece]; [trivial|].
  intros H. apply andb_true_iff in H as [Hr Hp]. rewrite Hr. simpl.
  unfold settled. apply forallb_forall. intros j Hj.
  apply plain_spec; [assumption|]. now apply (after_in_incl var_names n).
Qed.

Lemma expand_clean_plain (env : gmap string text) (pieces : list piece) :
  forallb (clean_piece env) pieces = true ->
  plain (expand_literally env pieces) = true.
Proof.
  unfold expand_literally.
  induction pieces as [|p pieces IH]; intros H; [reflexivity|].
  cbn [forallb] in H. apply andb_true_iff in H as [Hp H].
  cbn [map concat]. apply plain_app; [|now apply IH].
  destruct p as [s|n]; cbn [clean_piece expand_piece] in *; [assumption|].
  now apply andb_true_iff in Hp as [_ Hp].
Qed.

(** X8.  Substituting a text that has been substituted already changes
    nothing, for every template made of plain text and of recognized
    placeholders whose values are plain text. *)
Theorem substituting_twice (env : gmap string text) (pieces : list piece) :
  forallb (clean_piece env) pieces = true ->
  substitute env (substitute env (render pieces)) =
  substitute env (render pieces).
Proof.
  intros H.
  assert (substitute env (render pieces) = expand_literally env pieces)
    as Hfirst.
  { rewrite forallb_forall in H.
    apply substitute_pieces; apply List.Forall_forall; intros p Hp;
      apply H, clean_piece_settled, settled_piece_sound in Hp; tauto. }
  rewrite Hfirst.
  rewrite <- (app_nil_r (expand_literally env pieces)) at 1.
  unfold substitute. rewrite vars_to_sub_entries.
  rewrite substitute_vars_plain_prefix
    by (apply incl_refl || now apply expand_clean_plain).
  now rewrite substitute_vars_nil, app_nil_r.
Qed.

Lemma substituting_twice_witness :
  forallb (clean_piece env_special)
    [Lit (chars "dsn: "); Tok "KRATOS_DSN"; Lit (chars " cookie: ");
     Tok "KRATOS_COOKIE_SECRET"] = true /\
  substitute env_special
    (substitute env_special
       (chars "dsn: ${KRATOS_DSN} cookie: ${KRATOS_COOKIE_SECRET}")) =
  chars "dsn: postgres://u:p@h/db?a=.* cookie: pa$$.*\w+(x)$1".
Proof.
  assert (forallb (clean_piece env_special)
            [Lit (chars "dsn: "); Tok "KRATOS_DSN"; Lit (chars " cookie: ");
             Tok "KRATOS_COOKIE_SECRET"] = true) as H
    by (vm_compute; reflexivity).
  split; [exact H|].
  assert (E := substituting_twice env_special _ H).
  change (render [Lit (chars "dsn: "); Tok "KRATOS_DSN";
                  Lit (chars " cookie: "); Tok "KRATOS_COOKIE_SECRET"])
    with (chars "dsn: ${KRATOS_DSN} cookie: ${KRATOS_COOKIE_SECRET}") in E.
  rewrite E. reflexivity.
Defined.

Lemma replace_from_deletes (old : text) (k : nat) (s : text) :
  sublist (replace_from old [] k s) s.
Proof.
  revert k. induction s as [|c s IH]; intros k; [constructor|].
  cbn [replace_from]. destruct k as [|k].
  - destruct (is_prefix old (c :: s)).
    + simpl. apply sublist_cons, IH.
    + apply sublist_skip, IH.
  - apply sublist_cons, IH.
Qed.

Lemma substitute_vars_deletes (env : gmap string text) (names : list string)
    (t : text) :
  Forall (fun name => resolve env name = []) names ->
  sublist (substitute_vars (entries env names) t) t.
Proof.
  intros H. revert t. induction H as [|k names Hk _ IH]; intros t.
  - reflexivity.
  - cbn [entries map substitute_vars fold_left].
    unfold substitute_var at 2. cbn [fst snd]. rewrite Hk.
    etransitivity; [apply IH|].
    unfold replace. rewrite placeholder_shape.
    apply replace_from_deletes.
Qed.

(** X9.  When none of the four variables has a non-empty value, the script
    only deletes: the output is the template with some characters left out,
    in the same order, and is never longer than the template. *)
Theorem unset_variables_only_delete (env : gmap string text) (t : text) :
  all_empty env = true ->
  sublist (substitute env t) t /\ length (substitute env t) <= length t.
Proof.
  intros H. unfold all_empty in H. rewrite forallb_forall in H.
  assert (sublist (substitute env t) t) as Hs.
  { unfold substitute. rewrite vars_to_sub_entries.
    apply substitute_vars_deletes, List.Forall_forall. intros k Hk.
    apply H in Hk. now destruct (resolve env k). }
  split; [exact Hs|]. now apply sublist_length.
Qed.

Lemma unset_variables_only_delete_witness :
  all_empty empty = true /\
  sublist (substitute empty (chars "a=${KRATOS_DSN};b=${KRATOS_${KRATOS_DSN}"))
    (chars "a=${KRATOS_DSN};b=${KRATOS_${KRATOS_DSN}").
Proof.
  assert (all_empty empty = true) as H by reflexivity.
  split; [exact H|].
  apply (unset_variables_only_delete empty
           (chars "a=${KRATOS_DSN};b=${KRATOS_${KRATOS_DSN}") H).
Defined.

Lemma environ_get_empty_or_unset (env : gmap string text) (k name : string) :
  environ_get (insert k [] env) name [] = environ_get (delete k env) name [].
Proof.
  unfold environ_get. destruct (decide (k = name)) as [->|Hne].
  - now rewrite lookup_insert_eq, lookup_delete_eq.
  - now rewrite lookup_insert_ne, lookup_delete_ne.
Qed.

(** X10.  A variable set to the empty string counts as unset: whatever the
    variable, the template, the command line and the files, the script does
    the same with the variable set to the empty string as with the variable
    removed from the environment. *)
Theorem empty_value_as_unset (env : gmap string text) (k : string) :
  (forall t, substitute (insert k [] env) t = substitute (delete k env) t) /\
  (forall argv w,
     main argv (insert k [] env) w = main argv (delete k env) w).
Proof.
  assert (vars_to_sub (insert k [] env) = vars_to_sub (delete k env)) as H.
  { unfold vars_to_sub. now rewrite !environ_get_empty_or_unset. }
  split.
  - intros t. unfold substitute. now rewrite H.
  - intros argv w. unfold main. now rewrite H.
Qed.
